(** * zioncrmpro: entity hydration and bulk participant removal

    A shallow embedding of [src/structures/Community.js] (the [Community]
    entity: [_patch] and [removeParticipants] with its pacing helper
    [_getSleepTime]) and of the [Message] entity ([_patch],
    [getQuotedMessage]), followed by the properties of the specification
    that concern them.

    JavaScript objects used as dictionaries are finite maps ([gmap]) keyed by
    property name; statements that may throw live in a small state and
    exception monad; calls that leave the process (the page bridge, the
    platform store, timers) are recorded in an event log. *)

From Stdlib Require Import ZArith String Ascii List Lia.
From stdpp Require Import gmap strings list fin_maps pretty.

Set Warnings "-register-all,-clear-no-such-hyp".

Open Scope string_scope.
Open Scope list_scope.
Open Scope Z_scope.

(** ** JavaScript values *)

Module JS.

(** The fragment of JavaScript values that snapshots are made of.  Numbers
    are the integral ones (timestamps, codes). *)
Inductive Value : Type :=
| VUndefined
| VNull
| VBool (b : bool)
| VNum (n : Z)
| VStr (s : string)
| VArr (items : list Value)
| VObj (props : list (string * Value)).

(** ToBoolean. *)
Definition truthy (v : Value) : bool :=
  match v with
  | VUndefined | VNull => false
  | VBool b => b
  | VNum n => negb (n =? 0)
  | VStr s => negb (String.eqb s "")
  | VArr _ | VObj _ => true
  end.

(** [a || b] *)
Definition js_or (a b : Value) : Value := if truthy a then a else b.

(** [typeof v === 'object'] (which holds of [null] too). *)
Definition typeof_object (v : Value) : bool :=
  match v with
  | VNull | VArr _ | VObj _ => true
  | _ => false
  end.

(** Own property of an object literal, first binding wins. *)
Fixpoint assoc (k : string) (props : list (string * Value)) : option Value :=
  match props with
  | [] => None
  | (k', v) :: rest => if String.eqb k k' then Some v else assoc k rest
  end.

Inductive Error : Type := TypeError | MalformedSnapshot.

Inductive Completion (A : Type) : Type :=
| Normal (a : A)
| Throw (e : Error).
Arguments Normal {A} a.
Arguments Throw {A} e.

(** [v.k]: reading a property of [undefined] or [null] throws a TypeError;
    a missing property reads as [undefined].  The property names read by the
    source ([_serialized], [fromMe], snapshot fields) are not built-in
    properties of strings, numbers, booleans or arrays. *)
Definition prop (v : Value) (k : string) : Completion Value :=
  match v with
  | VUndefined | VNull => Throw TypeError
  | VObj props => Normal (default VUndefined (assoc k props))
  | _ => Normal VUndefined
  end.

End JS.

(** ** The patch protocol *)

Module Patch.
Import JS.

(** What a [_patch] call does, in order: assignments to fields of [this] and
    the hand-over to the parent class. *)
Inductive PatchEvent : Type :=
| Assigned (field : string)
| SuperPatch (snapshot : Value).

(** The entity being patched: its fields, and the record of what the patch
    calls did to it so far. *)
Record Entity : Type := mkEntity {
  this : gmap string Value;
  trace : list PatchEvent
}.

(** Statements: they update the entity and either complete or throw; a throw
    keeps the updates made before it. *)
Definition M (A : Type) : Type := Entity -> Completion A * Entity.

Definition ret {A} (a : A) : M A := fun e => (Normal a, e).

Definition bind {A B} (m : M A) (k : A -> M B) : M B :=
  fun e =>
    match m e with
    | (Normal a, e') => k a e'
    | (Throw err, e') => (Throw err, e')
    end.

Definition throw {A} (err : Error) : M A := fun e => (Throw err, e).

Definition lift {A} (c : Completion A) : M A := fun e => (c, e).

Declare Scope patch_scope.
Delimit Scope patch_scope with patch.
Notation "x <- c ;; k" := (bind c (fun x => k))
  (at level 100, c at next level, right associativity) : patch_scope.
Notation "c ;; k" := (bind c (fun _ => k))
  (at level 100, right associativity) : patch_scope.
Open Scope patch_scope.

(** [this.k = v] *)
Definition assign (k : string) (v : Value) : M unit :=
  fun e => (Normal tt, mkEntity (<[k := v]> (this e)) (trace e ++ [Assigned k])).

(** [this.k] *)
Definition this_get (k : string) : M Value :=
  fun e => (Normal (default VUndefined (this e !! k)), e).

(** [data.k] *)
Definition get (data : Value) (k : string) : M Value := lift (prop data k).

(** [typeof (v) === 'object' ? v._serialized : v] *)
Definition serialized_or_self (v : Value) : M Value :=
  if typeof_object v then get v "_serialized" else ret v.

Section Derived.

(** The parent class's [_patch] ([GroupChat._patch] for [Community],
    [Base._patch] for [Message]). *)
Variable super_patch : Value -> M Value.

(** [super._patch(data)] *)
Definition call_super (data : Value) : M Value :=
  fun e => super_patch data (mkEntity (this e) (trace e ++ [SuperPatch data])).

(** [Community._patch] *)
Definition Community_patch (data : Value) : M Value :=
  groupMetadata <- get data "groupMetadata" ;;
  assign "groupMetadata" groupMetadata ;;
  assign "isCommunity" (VBool true) ;;
  call_super data.

(** [Message._patch] *)
Definition Message_patch (data : Value) : M Value :=
  id <- get data "id" ;;
  assign "id" id ;;
  clientUrl <- get data "clientUrl" ;;
  assign "hasMedia" (VBool (truthy clientUrl)) ;;
  hasMedia <- this_get "hasMedia" ;;
  body <- (if truthy hasMedia
           then (caption <- get data "caption" ;; ret (js_or caption (VStr "")))
           else (b <- get data "body" ;; ret (js_or b (VStr "")))) ;;
  assign "body" body ;;
  type <- get data "type" ;;
  assign "type" type ;;
  t <- get data "t" ;;
  assign "timestamp" t ;;
  from <- get data "from" ;;
  from' <- serialized_or_self from ;;
  assign "from" from' ;;
  to <- get data "to" ;;
  to' <- serialized_or_self to ;;
  assign "to" to' ;;
  author <- get data "author" ;;
  author' <- serialized_or_self author ;;
  assign "author" author' ;;
  isForwarded <- get data "isForwarded" ;;
  assign "isForwarded" isForwarded ;;
  broadcast <- get data "broadcast" ;;
  assign "broadcast" broadcast ;;
  id2 <- get data "id" ;;
  fromMe <- get id2 "fromMe" ;;
  assign "fromMe" fromMe ;;
  quotedMsg <- get data "quotedMsg" ;;
  assign "hasQuotedMsg" (VBool (truthy quotedMsg)) ;;
  assign "mentions" (VArr []) ;;
  mentionedJidList <- get data "mentionedJidList" ;;
  (if truthy mentionedJidList
   then assign "mentions" mentionedJidList
   else ret tt) ;;
  call_super data.

End Derived.

(** Modelled from the spec: the Entity-level patch of the base class
    ([Base.js] is not part of the sources).  The base entity owns the
    identifier; a snapshot without the mandatory identifier fails with
    [MalformedSnapshot] and leaves the entity as it was. *)
Definition Base_patch (data : Value) : M Value :=
  match prop data "id" with
  | Normal VUndefined | Normal VNull | Throw _ => throw MalformedSnapshot
  | Normal id => assign "id" id ;; ret VUndefined
  end.

(** Modelled from the spec: the patch of [GroupChat] ([GroupChat.js] is not
    part of the sources).  It calls the base patch first, then layers the
    group metadata on top. *)
Definition GroupChat_patch (data : Value) : M Value :=
  r <- call_super Base_patch data ;;
  groupMetadata <- get data "groupMetadata" ;;
  assign "groupMetadata" groupMetadata ;;
  ret r.

(** *** What a patch writes *)

(** [data.k] of a snapshot, where reading does not throw. *)
Definition field (data : Value) (k : string) : Value :=
  match prop data k with
  | Normal v => v
  | Throw _ => VUndefined
  end.

(** The value of [typeof (v) === 'object' ? v._serialized : v], for [v]
    other than [null]. *)
Definition flat (v : Value) : Value :=
  if typeof_object v then field v "_serialized" else v.

Definition nullish (v : Value) : bool :=
  match v with
  | VUndefined | VNull => true
  | _ => false
  end.

Definition is_null (v : Value) : bool :=
  match v with
  | VNull => true
  | _ => false
  end.

(** The snapshots that [Message._patch] reads without throwing: the
    identifier is there and none of the three addresses is [null]. *)
Definition hydratable (data : Value) : bool :=
  negb (nullish data)
  && negb (nullish (field data "id"))
  && negb (is_null (field data "from"))
  && negb (is_null (field data "to"))
  && negb (is_null (field data "author")).

(** The assignments of [Message._patch], in order, for such a snapshot. *)
Definition Message_writes (data : Value) : list (string * Value) :=
  [ ("id", field data "id");
    ("hasMedia", VBool (truthy (field data "clientUrl")));
    ("body", if truthy (field data "clientUrl")
             then js_or (field data "caption") (VStr "")
             else js_or (field data "body") (VStr ""));
    ("type", field data "type");
    ("timestamp", field data "t");
    ("from", flat (field data "from"));
    ("to", flat (field data "to"));
    ("author", flat (field data "author"));
    ("isForwarded", field data "isForwarded");
    ("broadcast", field data "broadcast");
    ("fromMe", field (field data "id") "fromMe");
    ("hasQuotedMsg", VBool (truthy (field data "quotedMsg")));
    ("mentions", VArr []) ]
  ++ (if truthy (field data "mentionedJidList")
      then [("mentions", field data "mentionedJidList")]
      else []).

(** The assignments of [Community._patch], in order. *)
Definition Community_writes (data : Value) : list (string * Value) :=
  [ ("groupMetadata", field data "groupMetadata");
    ("isCommunity", VBool true) ].

(** Assignments applied to the fields of an entity, first to last. *)
Definition write_all (writes : list (string * Value)) (fields : gmap string Value)
  : gmap string Value :=
  fold_left (fun m kv => <[fst kv := snd kv]> m) writes fields.

(** The last value written to a field, if any. *)
Definition written (k : string) (writes : list (string * Value)) : option Value :=
  fold_left (fun r kv => if String.eqb (fst kv) k then Some (snd kv) else r)
            writes None.

Definition is_assignment (ev : PatchEvent) : bool :=
  match ev with
  | Assigned _ => true
  | SuperPatch _ => false
  end.

(** The patch hands over to the parent class before it assigns anything. *)
Definition super_first (events : list PatchEvent) : bool :=
  match events with
  | SuperPatch _ :: _ => true
  | _ => false
  end.

(** *** Lazy resolution of the quoted message *)

(** Entities live in a store, addressed by reference; [new] appends. *)
Definition ref : Type := nat.

Record World : Type := mkWorld {
  heap : list (gmap string Value);
  bridge_calls : list Value
}.

Section Resolver.

Variable super_patch : Value -> M Value.

(** The bridge: [pupPage.evaluate] of the closure that serializes the quoted
    message of the message with the given id; it resolves to a snapshot or
    rejects. *)
Variable evaluate : Value -> Completion Value.

(** The constructor body, [if (data) this._patch(data)], on the new object. *)
Definition construct (data : Value) : Completion Value * Entity :=
  (if truthy data then Message_patch super_patch data else ret VUndefined)
    (mkEntity ∅ []).

(** [new Message(client, data)] *)
Definition new_Message (data : Value) (w : World) : Completion ref * World :=
  let l := length (heap w) in
  match construct data with
  | (Normal _, e) => (Normal l, mkWorld (heap w ++ [this e]) (bridge_calls w))
  | (Throw err, _) => (Throw err, w)
  end.

(** [Message.getQuotedMessage], on the message stored at [self]; [None] is
    [undefined]. *)
Definition getQuotedMessage (self : ref) (w : World)
  : Completion (option ref) * World :=
  let me := default ∅ (heap w !! self) in
  if negb (truthy (default VUndefined (me !! "hasQuotedMsg")))
  then (Normal None, w)
  else
    match prop (default VUndefined (me !! "id")) "_serialized" with
    | Throw err => (Throw err, w)
    | Normal msgId =>
      let w1 := mkWorld (heap w) (bridge_calls w ++ [msgId]) in
      match evaluate msgId with
      | Throw err => (Throw err, w1)
      | Normal quotedMsg =>
        match new_Message quotedMsg w1 with
        | (Normal l, w2) => (Normal (Some l), w2)
        | (Throw err, w2) => (Throw err, w2)
        end
      end
    end.

End Resolver.

End Patch.

(** ** Pacing *)

Module Pacing.

(** The values the [sleep] option and the timer argument range over: a
    number, an array of numbers, or [NaN]. *)
Inductive Delay : Type :=
| Num (n : Z)
| Arr (a : list Z)
| NaN.

(** ToBoolean of a [sleep] option. *)
Definition truthy (d : Delay) : bool :=
  match d with
  | Num n => negb (n =? 0)
  | Arr _ => true
  | NaN => false
  end.

(** A result of [Math.random()]: the fraction [num / den], in [[0, 1)]. *)
Record Draw : Type := mkDraw { num : Z; den : Z }.


(** [Math.floor(Math.random() * n)] *)
Definition floor_random (u : Draw) (n : Z) : Z := (num u * n) / den u.

(** [_getSleepTime(sleep)].  The array is the caller's: the widening step
    assigns to its elements, so the function returns the array as it leaves
    it next to its result.  The widening is the chain
    [sleep[1] - sleep[0] < 100 && (sleep[0] = sleep[1]) && (sleep[1] += 100)]:
    its last step runs when the value just assigned is truthy, that is, not
    zero.  On the empty array the arithmetic is on [undefined]. *)
Definition _getSleepTime (u : Draw) (sleep : Delay) : Delay * Delay :=
  match sleep with
  | Arr a =>
    if match a with [lo; hi] => lo =? hi | _ => false end
    then (sleep, sleep)
    else
      match a with
      | [x] => (Num x, sleep)
      | lo :: hi :: rest =>
        let (lo1, hi1) :=
          if hi - lo <? 100
          then (hi, if hi =? 0 then hi else hi + 100)
          else (lo, hi) in
        (Num (floor_random u (hi1 - lo1 + 1) + lo1), Arr (lo1 :: hi1 :: rest))
      | [] => (NaN, sleep)
      end
  | _ => (sleep, sleep)
  end.

End Pacing.

(** ** Bulk participant removal *)

Module Removal.
Import Pacing.

(** A [Wid] object made by [WidFactory.createWid]: its identity as an object
    and its serialized form. *)
Record Wid : Type := mkWid { wid_object : nat; _serialized : string }.

(** [RemoveParticipantsResult] *)
Record RemoveParticipantsResult : Type := mkResult {
  code : Z;
  message : string
}.

(** The [errorCodes] table: its two named entries and its numeric ones. *)
Definition errorCodes_default : string :=
  "An unknown error occupied while removing a participant".

Definition errorCodes_iAmNotAdmin : string :=
  "RemoveParticipantsError: You have no admin rights to remove participants from the community".

Definition errorCodes (c : Z) : option string :=
  if c =? 200 then
    Some "The participant was removed successfully from the community and its subgroups"
  else if c =? 404 then Some "The phone number is not registered on WhatsApp"
  else if c =? 405 then
    Some "The participant is not allowed to be removed from the community"
  else if c =? 406 then
    Some "The participant can't be removed from the community because they created this community"
  else if c =? 409 then Some "The participant is not a community member"
  else if c =? 500 then
    Some "A server error occupied while removing the participant from community subgroups"
  else None.

(** [errorCodes[c] || errorCodes.default] *)
Definition message_of (c : Z) : string := default errorCodes_default (errorCodes c).

(** What [sendRemoveParticipantsRPC] resolves to, by its [name] tag.  The
    success variant carries the error of the nested mixin group when there is
    one; the error variants carry their code. *)
Inductive RpcResult : Type :=
| RemoveParticipantsResponseSuccess (error : option Z)
| RemoveParticipantsResponseClientError (code : Z)
| RemoveParticipantsResponseServerError (code : Z)
| OtherResponse (name : string).

Inductive RpcOutcome : Type :=
| Resolved (rpcResult : RpcResult)
| Rejected.

(** The platform store as the call sees it: [createWid p] is the serialized
    form of the [Wid] that [WidFactory.createWid(p)] makes;
    [iAmAdmin] is [community.iAmAdmin()]; [communityParticipants] holds the
    serialized ids of [community.groupMetadata?.participants._models] after
    the refresh, [None] when the optional chain yields [undefined];
    [QueryExist i pId] tells whether [(await QueryExist(pWid))?.wid] is
    truthy.  The answers of the remote calls may differ from one loop
    iteration to the next, so they are indexed by the position of the target
    in the batch, and so are the draws of [Math.random()]. *)
Record Platform : Type := mkPlatform {
  createWid : string -> string;
  iAmAdmin : bool;
  communityParticipants : option (list string);
  QueryExist : nat -> string -> bool;
  sendRemoveParticipantsRPC : nat -> string -> RpcOutcome;
  random : nat -> Draw
}.

(** Calls into the platform and timers, in the order they are made. *)
Inductive Event : Type :=
| ChatFind
| QueryAndUpdateCommunityParticipants
| QueryExistCall (pId : string)
| RemoveParticipantsRPC (pId : string)
| SetTimeout (delay : Delay).

(** Elements that arrays of the call hold: id strings and [Wid] objects. *)
Inductive Elem : Type :=
| EStr (s : string)
| EWid (w : Wid).

(** [===]: strings by content, objects by identity. *)
Definition strict_equals (a b : Elem) : bool :=
  match a, b with
  | EStr s, EStr t => String.eqb s t
  | EWid v, EWid w => Nat.eqb (wid_object v) (wid_object w)
  | _, _ => false
  end.

Fixpoint indexOf_from (i : Z) (l : list Elem) (x : Elem) : Z :=
  match l with
  | [] => -1
  | y :: rest => if strict_equals y x then i else indexOf_from (i + 1) rest x
  end.

(** [l.indexOf(x)] *)
Definition indexOf (l : list Elem) (x : Elem) : Z := indexOf_from 0 l x.

(** The variables of the call that the loop updates. *)
Record State : Type := mkState {
  participantData : gmap string RemoveParticipantsResult;
  sleep : Delay;
  log : list Event
}.

Definition emit (ev : Event) (st : State) : State :=
  mkState (participantData st) (sleep st) (log st ++ [ev]).

(** [participantData[pId] = { code: c, message: m }] *)
Definition record (pId : string) (c : Z) (m : string) (st : State) : State :=
  mkState (<[pId := mkResult c m]> (participantData st)) (sleep st) (log st).

(** One pass through the loop body either reaches the next iteration or
    throws out of the call. *)
Inductive Step : Type :=
| Next (st : State)
| Thrown (st : State).

Inductive Ids : Type :=
| Single (p : string)
| Many (ps : list string).

Record Options : Type := mkOptions { opt_sleep : option Delay }.

Inductive Result : Type :=
| ErrorMessage (msg : string)
| ParticipantData (data : gmap string RemoveParticipantsResult)
| Exception.

(** [!Array.isArray(participantIds) && (participantIds = [participantIds])] *)
Definition as_array (participantIds : Ids) : list string :=
  match participantIds with
  | Single p => [p]
  | Many ps => ps
  end.

Section Call.

Variable P : Platform.

(** The [finally] block: the pause before the next participant. *)
Definition pause (participantIds : list string) (i : nat) (pWid : Wid)
    (st : State) : State :=
  if truthy (sleep st)
     && (1 <? length participantIds)%nat
     && negb (indexOf (map EStr participantIds) (EWid pWid)
              =? Z.of_nat (length participantIds) - 1)
  then
    let (t, sleep') := _getSleepTime (random P i) (sleep st) in
    mkState (participantData st) sleep' (log st ++ [SetTimeout t])
  else st.

(** The three branches on [rpcResult.name]. *)
Definition classify (pId : string) (rpcResult : RpcResult) (st : State) : State :=
  match rpcResult with
  | RemoveParticipantsResponseSuccess error =>
    let errorCode :=
      match error with
      | Some e => if e =? 0 then 200 else e
      | None => 200
      end in
    record pId errorCode (message_of errorCode) st
  | RemoveParticipantsResponseClientError code =>
    record pId code (message_of code) st
  | RemoveParticipantsResponseServerError code =>
    record pId code (message_of code) st
  | OtherResponse _ => st
  end.

(** The body of [for (const pWid of participantWids)], for the [i]-th
    target. *)
Definition iteration (participantIds : list string) (i : nat) (pWid : Wid)
    (st : State) : Step :=
  let pId := _serialized pWid in
  let st := emit (QueryExistCall pId) st in
  if negb (QueryExist P i pId) then Next (record pId 404 (message_of 404) st)
  else
    match communityParticipants P with
    | None => Thrown st
    | Some members =>
      if forallb (fun p => negb (String.eqb p pId)) members
      then Next (record pId 409 (message_of 409) st)
      else
        let st := emit (RemoveParticipantsRPC pId) st in
        match sendRemoveParticipantsRPC P i pId with
        | Rejected =>
          Next (pause participantIds i pWid (record pId 400 errorCodes_default st))
        | Resolved rpcResult =>
          Next (classify pId rpcResult (pause participantIds i pWid st))
        end
    end.

Fixpoint loop (participantIds : list string) (i : nat) (wids : list Wid)
    (st : State) : Step :=
  match wids with
  | [] => Next st
  | pWid :: rest =>
    match iteration participantIds i pWid st with
    | Next st' => loop participantIds (S i) rest st'
    | Thrown st' => Thrown st'
    end
  end.

(** [participantIds.map((p) => createWid(p))]: one new object per element. *)
Fixpoint createWids (i : nat) (participantIds : list string) : list Wid :=
  match participantIds with
  | [] => []
  | p :: rest => mkWid i (createWid P p) :: createWids (S i) rest
  end.

(** [Community.removeParticipants] *)
Definition removeParticipants (participantIds : Ids) (options : Options)
  : Result * list Event :=
  let sleep := default (Arr [250; 500]) (opt_sleep options) in
  let log := [ChatFind] in
  let participantIds := as_array participantIds in
  let participantWids := createWids 0 participantIds in
  if negb (iAmAdmin P) then (ErrorMessage errorCodes_iAmNotAdmin, log)
  else
    let st := mkState ∅ sleep (log ++ [QueryAndUpdateCommunityParticipants]) in
    match loop participantIds 0 participantWids st with
    | Next st' => (ParticipantData (participantData st'), Removal.log st')
    | Thrown st' => (Exception, Removal.log st')
    end.

End Call.

(** *** Vocabulary for the statements about a batch *)

Section Vocabulary.

Variable P : Platform.
Variable members : list string.






End Vocabulary.


Definition is_timeout (ev : Event) : bool :=
  match ev with
  | SetTimeout _ => true
  | _ => false
  end.

(** How many times the pause was taken. *)
Definition pauses (evs : list Event) : nat := length (List.filter is_timeout evs).

End Removal.

(** ** Scenarios *)

Module Scenario.
Import Pacing Removal.

(** A community whose members are [a@c.us] and [b@c.us]; identifiers
    serialize to themselves; [Math.random()] yields one half. *)
Definition platform (admin : bool) (exist : nat -> string -> bool)
    (rpc : nat -> string -> RpcOutcome) : Platform :=
  mkPlatform (fun p => p) admin (Some ["a@c.us"; "b@c.us"]) exist rpc
             (fun _ => mkDraw 1 2).

Definition everyone_exists : nat -> string -> bool := fun _ _ => true.

Definition removed : RpcOutcome := Resolved (RemoveParticipantsResponseSuccess None).

(** Every removal succeeds. *)
Definition cooperative : Platform := platform true everyone_exists (fun _ _ => removed).


(** The caller is not an admin of the community. *)
Definition not_admin : Platform := platform false everyone_exists (fun _ _ => removed).



Definition defaults : Options := mkOptions None.

(** Snapshots of messages and of a community. *)
Definition message_id (serialized : string) (fromMe : bool) : JS.Value :=
  JS.VObj [("fromMe", JS.VBool fromMe); ("_serialized", JS.VStr serialized)].

Definition reply_snapshot : JS.Value :=
  JS.VObj [("id", message_id "false_a@c.us_3EB0A1" false);
           ("body", JS.VStr "see you there");
           ("type", JS.VStr "chat");
           ("t", JS.VNum 1700000000);
           ("from", JS.VObj [("_serialized", JS.VStr "a@c.us")]);
           ("to", JS.VStr "me@c.us");
           ("isForwarded", JS.VBool false);
           ("quotedMsg", JS.VObj [("body", JS.VStr "shall we meet?")]);
           ("mentionedJidList", JS.VArr [JS.VStr "b@c.us"])].

(** The same message, in a later snapshot that carries the identifier
    only. *)
Definition bare_snapshot : JS.Value :=
  JS.VObj [("id", message_id "false_a@c.us_3EB0A1" false)].

(** A snapshot without the identifier. *)
Definition anonymous_snapshot : JS.Value :=
  JS.VObj [("body", JS.VStr "edited"); ("type", JS.VStr "chat")].

Definition quoted_snapshot : JS.Value :=
  JS.VObj [("id", message_id "true_a@c.us_3EB0A0" true);
           ("body", JS.VStr "shall we meet?");
           ("type", JS.VStr "chat")].

Definition community_snapshot : JS.Value :=
  JS.VObj [("id", JS.VObj [("_serialized", JS.VStr "1203630@g.us")]);
           ("groupMetadata", JS.VObj [("size", JS.VNum 2)])].

Definition blank : Patch.Entity := Patch.mkEntity ∅ [].

(** The reply of [reply_snapshot], hydrated over the spec's base patch. *)
Definition reply : Patch.Entity :=
  snd (Patch.Message_patch Patch.Base_patch reply_snapshot blank).

(** A bridge that knows the quoted message of that reply. *)
Definition bridge (msgId : JS.Value) : JS.Completion JS.Value :=
  match msgId with
  | JS.VStr "false_a@c.us_3EB0A1" => JS.Normal quoted_snapshot
  | _ => JS.Throw JS.TypeError
  end.

(** A store holding the reply, and a plain message without a quote. *)
Definition store : Patch.World :=
  Patch.mkWorld
    [Patch.this reply;
     Patch.this (snd (Patch.Message_patch Patch.Base_patch quoted_snapshot blank))]
    [].

End Scenario.

(** ** Reading the call log of a batch *)

Module Batch.
Import Pacing Removal.

(** The targets of the removal calls of a log, in order. *)
Fixpoint removal_calls (evs : list Event) : list string :=
  match evs with
  | [] => []
  | RemoveParticipantsRPC pId :: rest => pId :: removal_calls rest
  | _ :: rest => removal_calls rest
  end.


(** The arguments handed to the timer, in order. *)
Fixpoint delays (evs : list Event) : list Delay :=
  match evs with
  | [] => []
  | SetTimeout d :: rest => d :: delays rest
  | _ :: rest => delays rest
  end.

Section Shape.

Variable P : Platform.
Variable members : list string.



End Shape.

(** The variables of the call where a step leaves them. *)
Definition state_of (s : Step) : State :=
  match s with
  | Next st => st
  | Thrown st => st
  end.




End Batch.

(** ** The accessors of a message *)

Module Accessors.
Import JS Patch.

(** [this.k], on the fields of an entity. *)
Definition own (fields : gmap string Value) (k : string) : Value :=
  default VUndefined (fields !! k).

(** [Message._getChatId] *)
Definition _getChatId (fields : gmap string Value) : Value :=
  if truthy (own fields "fromMe") then own fields "to" else own fields "from".

(** How an [async] method settles: with its value, or rejected, by an error
    of its own or for the reason a call it awaits was rejected. *)
Inductive Reason : Type :=
| OwnError (e : Error)
| Upstream (reason : Value).

Inductive Settled (A : Type) : Type :=
| Kept (a : A)
| Broken (why : Reason).
Arguments Kept {A} a.
Arguments Broken {A} why.

(** [v.length], for the values a patch can leave in [mentions]. *)
Definition length_of (v : Value) : Completion Value :=
  match v with
  | VUndefined | VNull => Throw TypeError
  | VArr items => Normal (VNum (Z.of_nat (length items)))
  | VStr s => Normal (VNum (Z.of_nat (String.length s)))
  | VObj props => Normal (default VUndefined (assoc "length" props))
  | VBool _ | VNum _ => Normal VUndefined
  end.

(** The number of [i = 0, 1, ...] with [i < len].  A bound that is a
    string, an array or an object is compared through its conversion to a
    number, which this fragment does not have: [None]. *)
Definition iterations (len : Value) : option nat :=
  match len with
  | VNum n => Some (Z.to_nat n)
  | VBool b => Some (if b then 1%nat else 0%nat)
  | VUndefined | VNull => Some 0%nat
  | VStr _ | VArr _ | VObj _ => None
  end.

(** [v[i]] *)
Definition at_index (v : Value) (i : nat) : Value :=
  match v with
  | VArr items => nth i items VUndefined
  | VStr s =>
    match String.get i s with
    | Some c => VStr (String c EmptyString)
    | None => VUndefined
    end
  | VObj props => default VUndefined (assoc (pretty i) props)
  | _ => VUndefined
  end.

(** [{...v}]: the own enumerable properties of [v]. *)
Definition spread (v : Value) : gmap string Value :=
  match v with
  | VObj props => list_to_map props
  | VArr items => list_to_map (imap (fun i x => (pretty i, x)) items)
  | VStr s =>
    list_to_map (imap (fun i c => (pretty i, VStr (String c EmptyString)))
                      (list_ascii_of_string s))
  | _ => ∅
  end.

Section Client.

(** The client of the message: contacts, chats and sent messages are its
    business.  A call may be answered differently each time it is made, so
    the lookup of contacts is indexed by the position of the call. *)
Variables Contact Chat Content Sent : Type.
Variable getContactById : nat -> Value -> Settled Contact.
Variable getChatById : Value -> Settled Chat.
Variable sendMessage : Value -> Content -> gmap string Value -> Settled Sent.

(** [Message.getChat] *)
Definition getChat (fields : gmap string Value) : Settled Chat :=
  getChatById (_getChatId fields).

(** [Message.getContact] *)
Definition getContact (fields : gmap string Value) : Settled Contact :=
  getContactById 0 (_getChatId fields).

(** The loop of [getMentions], with [n] iterations to go from index [i]: the
    contacts pushed so far and the arguments of the lookups made so far. *)
Fixpoint resolve (mentions : Value) (i n : nat) (found : list Contact)
    (asked : list Value) : Settled (list Contact) * list Value :=
  match n with
  | O => (Kept found, asked)
  | S n' =>
    let id := at_index mentions i in
    match getContactById i id with
    | Broken why => (Broken why, asked ++ [id])
    | Kept contact => resolve mentions (S i) n' (found ++ [contact]) (asked ++ [id])
    end
  end.

(** [Message.getMentions]: what it settles with, and the arguments of the
    lookups it made, in order. *)
Definition getMentions (fields : gmap string Value)
  : option (Settled (list Contact) * list Value) :=
  let mentions := own fields "mentions" in
  match length_of mentions with
  | Throw e => Some (Broken (OwnError e), [])
  | Normal len =>
    match iterations len with
    | Some n => Some (resolve mentions 0 n [] [])
    | None => None
    end
  end.

(** [Message.reply] *)
Definition reply (fields : gmap string Value) (content : Content)
    (chatId : Value) (options : Value) : Settled Sent :=
  let chatId := if negb (truthy chatId) then _getChatId fields else chatId in
  match prop (own fields "id") "_serialized" with
  | Throw e => Broken (OwnError e)
  | Normal quotedMessageId =>
    sendMessage chatId content
                (<["quotedMessageId" := quotedMessageId]> (spread options))
  end.

End Client.

(** [s.split(sep)], for a separator of one character. *)
Fixpoint split (sep : ascii) (s : string) : list string :=
  match s with
  | EmptyString => [EmptyString]
  | String c rest =>
    if Ascii.eqb c sep then EmptyString :: split sep rest
    else
      match split sep rest with
      | head :: tail => String c head :: tail
      | [] => [String c EmptyString]
      end
  end.

(** What [new MessageMedia(mimetype, data, filename)] holds. *)
Record MessageMedia : Type := mkMedia {
  mimetype : Value;
  data : Value;
  filename : Value
}.

Section Media.

(** The page side of the download: the message store, the download of the
    encrypted buffer, its decryption, and the reading of the decrypted blob
    as a data URL. *)
Variables Buffer Decrypted : Type.
Variable Msg_get : Value -> Value.
Variable downloadBuffer : Value -> Settled Buffer.
Variable decryptE2EMedia : Value -> Buffer -> Value -> Value -> Settled Decrypted.
Variable readBlobAsync : Decrypted -> Settled string.

(** The function that [downloadMedia] evaluates in the page. *)
Definition in_page (msgId : Value) : Settled (Value * Value * Value) :=
  let msg := Msg_get msgId in
  match prop msg "clientUrl" with
  | Throw e => Broken (OwnError e)
  | Normal clientUrl =>
    match downloadBuffer clientUrl with
    | Broken why => Broken why
    | Kept buffer =>
      match decryptE2EMedia (field msg "type") buffer (field msg "mediaKey")
                            (field msg "mimetype") with
      | Broken why => Broken why
      | Kept decrypted =>
        match readBlobAsync decrypted with
        | Broken why => Broken why
        | Kept url =>
          Kept (match split ","%char url with
                | _ :: payload :: _ => VStr payload
                | _ => VUndefined
                end,
                field msg "mimetype", field msg "filename")
        end
      end
    end
  end.

(** [Message.downloadMedia]: what it settles with ([None] is [undefined])
    and the calls over the bridge after it, given the ones before. *)
Definition downloadMedia (fields : gmap string Value) (calls : list Value)
  : Settled (option MessageMedia) * list Value :=
  if negb (truthy (own fields "hasMedia")) then (Kept None, calls)
  else
    match prop (own fields "id") "_serialized" with
    | Throw e => (Broken (OwnError e), calls)
    | Normal msgId =>
      match in_page msgId with
      | Broken why => (Broken why, calls ++ [msgId])
      | Kept (data, mimetype, filename) =>
        (Kept (Some (mkMedia mimetype data filename)), calls ++ [msgId])
      end
    end.

End Media.

(** A string without a comma. *)
Definition comma_free (s : string) : bool :=
  forallb (fun c => negb (Ascii.eqb c ","%char)) (list_ascii_of_string s).

(** A parent patch that leaves a field of the entity as it finds it. *)
Definition keeps (super_patch : Value -> M Value) (k : string) : Prop :=
  forall data e, this (snd (super_patch data e)) !! k = this e !! k.

End Accessors.

(** ** More scenarios *)

Module Cases.
Import Pacing Removal.

(** A community whose metadata is not loaded: the membership snapshot reads
    as [undefined].  [x@c.us] is not on the platform. *)
Definition unloaded : Platform :=
  mkPlatform (fun p => p) true None
             (fun _ pId => negb (String.eqb pId "x@c.us"))
             (fun _ _ => Scenario.removed)
             (fun _ => mkDraw 1 2).

Definition unpaced : Options := mkOptions (Some (Num 0)).


(** A client that knows the contacts whose identifier is a string. *)
Definition contact_of (i : nat) (id : JS.Value) : Accessors.Settled string :=
  match id with
  | JS.VStr s => Accessors.Kept s
  | _ => Accessors.Broken (Accessors.Upstream (JS.VStr "invalid wid"))
  end.

(** A message that mentions two contacts, and one whose second mention is
    not an identifier. *)
Definition two_mentions : gmap string JS.Value :=
  {[ "mentions" := JS.VArr [JS.VStr "a@c.us"; JS.VStr "b@c.us"] ]}.

Definition bad_mention : gmap string JS.Value :=
  {[ "mentions" := JS.VArr [JS.VStr "a@c.us"; JS.VNum 7; JS.VStr "b@c.us"] ]}.

(** A picture message, in the node process and in the page's store. *)
Definition picture_snapshot : JS.Value :=
  JS.VObj [("id", Scenario.message_id "false_a@c.us_3EB0B2" false);
           ("clientUrl", JS.VStr "https://mmg.example/d/f/abc.enc");
           ("caption", JS.VStr "the view");
           ("type", JS.VStr "image");
           ("from", JS.VStr "a@c.us");
           ("to", JS.VStr "me@c.us")].

Definition picture : gmap string JS.Value :=
  Patch.this (snd (Patch.Message_patch Patch.Base_patch picture_snapshot
                                       Scenario.blank)).

Definition stored (msgId : JS.Value) : JS.Value :=
  match msgId with
  | JS.VStr "false_a@c.us_3EB0B2" =>
    JS.VObj [("clientUrl", JS.VStr "https://mmg.example/d/f/abc.enc");
             ("type", JS.VStr "image");
             ("mediaKey", JS.VStr "k");
             ("mimetype", JS.VStr "image/png");
             ("filename", JS.VStr "view.png")]
  | _ => JS.VUndefined
  end.

Definition fetch (clientUrl : JS.Value) : Accessors.Settled string :=
  Accessors.Kept "encrypted".

Definition decrypt (type : JS.Value) (buffer : string) (mediaKey mimetype : JS.Value)
  : Accessors.Settled string :=
  Accessors.Kept "decrypted".

Definition read (blob : string) : Accessors.Settled string :=
  Accessors.Kept "data:image/png;base64,iVBORw0KGgo=".

(** A snapshot whose sender address is [null]. *)
Definition null_sender : JS.Value :=
  JS.VObj [("id", Scenario.message_id "false_a@c.us_3EB0C3" false);
           ("body", JS.VStr "hi");
           ("from", JS.VNull)].

End Cases.

(** * Properties *)

Import JS Patch Pacing Removal.

(** ** Bulk participant removal: the loop *)

Section RemovalFacts.

Variable P : Platform.

(** A [Wid] object is never [===] to an id string, so looking one up in the
    array of id strings finds nothing. *)
Lemma indexOf_from_wid_in_strings (ids : list string) (w : Wid) (i : Z) :
  indexOf_from i (map EStr ids) (EWid w) = -1.
Proof.
  revert i. induction ids as [|p ids IH]; intros i; simpl; [reflexivity|].
  apply IH.
Qed.

Lemma indexOf_wid_in_strings (ids : list string) (w : Wid) :
  indexOf (map EStr ids) (EWid w) = -1.
Proof. apply indexOf_from_wid_in_strings. Qed.



Lemma pause_single p i w st : pause P [p] i w st = st.
Proof.
  unfold pause. simpl. rewrite andb_false_r. reflexivity.
Qed.


Lemma classify_log pId r st : log (classify pId r st) = log st.
Proof. destruct r as [[e|]| | |]; reflexivity. Qed.

Section WithSnapshot.

Variable members : list string.
Hypothesis snapshot : communityParticipants P = Some members.



End WithSnapshot.

End RemovalFacts.

(** ** Bulk participant removal: the result map *)

Section ResultMap.

Variable P : Platform.
Variable members : list string.

Lemma createWids_serialized ids : forall i,
  map _serialized (createWids P i ids) = map (createWid P) ids.
Proof.
  induction ids as [|p ids IH]; intros i; simpl; [reflexivity|].
  rewrite IH. reflexivity.
Qed.


Lemma createWids_lookup ids : forall i j w,
  createWids P i ids !! j = Some w ->
  exists p, ids !! j = Some p /\ _serialized w = createWid P p.
Proof.
  induction ids as [|p ids IH]; intros i j w H; simpl in H.
  - rewrite lookup_nil in H. discriminate.
  - destruct j as [|j]; simpl in *.
    + injection H as <-. exists p. split; reflexivity.
    + apply (IH (S i) j w H).
Qed.

Lemma createWids_lookup_Some ids : forall i j p,
  ids !! j = Some p ->
  createWids P i ids !! j = Some (mkWid (i + j) (createWid P p)).
Proof.
  induction ids as [|q ids IH]; intros i j p H.
  - rewrite lookup_nil in H. discriminate.
  - destruct j as [|j]; simpl in *.
    + injection H as <-. rewrite Nat.add_0_r. reflexivity.
    + rewrite (IH (S i) j p H). do 2 f_equal. lia.
Qed.






End ResultMap.

(** ** Bulk participant removal: the claims *)







(** C8.  When the caller is not an admin of the community the call returns
    the error string at once: a value that is not a result map, after the
    chat lookup alone, so without refreshing or reading the membership
    snapshot, without any existence query or removal call, and without any
    pause. *)
Theorem not_admin_returns_error (P : Platform) (ids : Ids) (options : Options) :
  iAmAdmin P = false ->
  removeParticipants P ids options
    = (ErrorMessage errorCodes_iAmNotAdmin, [ChatFind]) /\
  forall data, fst (removeParticipants P ids options) <> ParticipantData data.
Proof.
  intros H. unfold removeParticipants. rewrite H. simpl.
  split; [reflexivity|]. intros data. discriminate.
Qed.

Lemma not_admin_returns_error_witness :
  removeParticipants Scenario.not_admin (Many ["a@c.us"; "b@c.us"])
                     Scenario.defaults
    = (ErrorMessage errorCodes_iAmNotAdmin, [ChatFind]) /\
  forall data,
    fst (removeParticipants Scenario.not_admin (Many ["a@c.us"; "b@c.us"])
                            Scenario.defaults) <> ParticipantData data.
Proof.
  apply (not_admin_returns_error Scenario.not_admin). reflexivity.
Defined.



(** ** Pacing *)

(** In a batch of more than one target with pacing on, the pause is taken
    whichever target the loop is at: the position test compares a [Wid]
    object with id strings. *)
Lemma pause_taken (P : Platform) ids i w st :
  Pacing.truthy (sleep st) = true ->
  (1 < length ids)%nat ->
  exists t, log (pause P ids i w st) = log st ++ [SetTimeout t].
Proof.
  intros Ht Hn. unfold pause. rewrite Ht, indexOf_wid_in_strings.
  assert (E : (-1 =? Z.of_nat (length ids) - 1) = false)
    by (apply Z.eqb_neq; lia).
  apply Nat.ltb_lt in Hn. rewrite Hn, E. cbn [andb negb].
  destruct (_getSleepTime _ _) as [t s']. exists t. reflexivity.
Qed.

(** X18.  A batch of one target is never paused. *)
Lemma single_target_no_pause (P : Platform) (ids : Ids) (options : Options) p :
  as_array ids = [p] ->
  pauses (snd (removeParticipants P ids options)) = 0%nat.
Proof.
  intros E. unfold removeParticipants. rewrite E.
  destruct (iAmAdmin P); simpl; [|reflexivity].
  unfold iteration.
  destruct (QueryExist P _ _); simpl; [|reflexivity].
  destruct (communityParticipants P) as [members|]; simpl; [|reflexivity].
  destruct (forallb _ members); simpl; [reflexivity|].
  destruct (sendRemoveParticipantsRPC P _ _) as [r|]; simpl;
    rewrite pause_single; [rewrite classify_log|]; reflexivity.
Qed.

(** C3, at a batch of two members that are both removed, with the default
    pacing: the pause is taken twice, the second time after the removal call
    of the last target. *)
Theorem pause_after_last_target :
  snd (removeParticipants Scenario.cooperative (Many ["a@c.us"; "b@c.us"])
                          Scenario.defaults)
  = [ChatFind; QueryAndUpdateCommunityParticipants;
     QueryExistCall "a@c.us"; RemoveParticipantsRPC "a@c.us"; SetTimeout (Num 375);
     QueryExistCall "b@c.us"; RemoveParticipantsRPC "b@c.us"; SetTimeout (Num 375)]
  /\ pauses (snd (removeParticipants Scenario.cooperative
                    (Many ["a@c.us"; "b@c.us"]) Scenario.defaults)) = 2%nat.
Proof. split; reflexivity. Qed.



Lemma getSleepTime_number (u : Draw) (n : Z) :
  _getSleepTime u (Num n) = (Num n, Num n).
Proof. reflexivity. Qed.

Lemma getSleepTime_single (u : Draw) (x : Z) :
  _getSleepTime u (Arr [x]) = (Num x, Arr [x]).
Proof. reflexivity. Qed.



Lemma getSleepTime_equal (u : Draw) (v : Z) :
  _getSleepTime u (Arr [v; v]) = (Arr [v; v], Arr [v; v]).
Proof. unfold _getSleepTime. rewrite Z.eqb_refl. reflexivity. Qed.

(** C2, at the range [[250, 250]]: the scheduler hands back the range itself,
    a two-element array, where the value 250 is asked for. *)
Theorem getSleepTime_equal_bounds (u : Draw) :
  fst (_getSleepTime u (Arr [250; 250])) = Arr [250; 250] /\
  fst (_getSleepTime u (Arr [250; 250])) <> Num 250.
Proof. split; [reflexivity|discriminate]. Qed.

(** ** The patch protocol *)

Section PatchFacts.

Variable super_patch : Value -> M Value.

Lemma serialized_or_self_flat (v : Value) (e : Entity) :
  is_null v = false -> serialized_or_self v e = (Normal (flat v), e).
Proof.
  intros H. unfold serialized_or_self, flat, get, lift, ret, field.
  destruct v; try discriminate; reflexivity.
Qed.

Lemma hydratable_object (data : Value) :
  hydratable data = true -> exists props, data = VObj props.
Proof.
  destruct data; try discriminate. intros _. eexists; reflexivity.
Qed.

Lemma prop_not_nullish (v : Value) (k : string) :
  nullish v = false -> prop v k = Normal (field v k).
Proof. destruct v; try discriminate; reflexivity. Qed.

(** [Message._patch] on a snapshot it can read: the assignments, then the
    hand-over to the parent class, whose completion is the completion of the
    call. *)
Lemma Message_patch_hydrates (data : Value) (e : Entity) :
  hydratable data = true ->
  Message_patch super_patch data e =
  super_patch data
    (mkEntity (write_all (Message_writes data) (this e))
              (trace e ++ map Assigned (map fst (Message_writes data))
                       ++ [SuperPatch data])).
Proof.
  intros H. destruct (hydratable_object data H) as [props ->].
  unfold hydratable in H. rewrite !andb_true_iff, !negb_true_iff in H.
  destruct H as [[[[_ Hid] Hfrom] Hto] Hauthor].
  unfold write_all, Message_writes.
  unfold Message_patch, bind, get, lift, assign, this_get, ret, call_super.
  cbn [prop this trace field] in *.
  rewrite lookup_insert_eq. cbn [from_option id JS.truthy].
  destruct (JS.truthy (default VUndefined (assoc "clientUrl" props)));
    cbn [this trace];
    repeat (rewrite serialized_or_self_flat by assumption; cbn [this trace]);
    rewrite (prop_not_nullish _ "fromMe" Hid);
    destruct (JS.truthy (default VUndefined (assoc "mentionedJidList" props)));
    cbn [this trace fold_left app fst snd map];
    rewrite <- !app_assoc; reflexivity.
Qed.

Lemma Community_patch_assigns (data : Value) (e : Entity) :
  nullish data = false ->
  Community_patch super_patch data e =
  super_patch data
    (mkEntity (write_all (Community_writes data) (this e))
              (trace e ++ map Assigned (map fst (Community_writes data))
                       ++ [SuperPatch data])).
Proof.
  intros H.
  unfold Community_patch, bind, get, lift, assign, call_super, write_all.
  rewrite (prop_not_nullish _ _ H). cbn [this trace fold_left fst snd map app
    Community_writes].
  rewrite <- !app_assoc. reflexivity.
Qed.

End PatchFacts.

Lemma write_all_snoc ws k v (m : gmap string Value) :
  write_all (ws ++ [(k, v)]) m = <[k := v]> (write_all ws m).
Proof. unfold write_all. rewrite fold_left_app. reflexivity. Qed.

Lemma written_snoc ws k v k' :
  written k' (ws ++ [(k, v)]) =
  if String.eqb k k' then Some v else written k' ws.
Proof. unfold written. rewrite fold_left_app. reflexivity. Qed.

(** A field holds the last value written to it, or else what it held. *)
Lemma write_all_lookup ws (m : gmap string Value) k :
  write_all ws m !! k =
  match written k ws with
  | Some v => Some v
  | None => m !! k
  end.
Proof.
  induction ws as [|[k' v'] ws IH] using rev_ind; [reflexivity|].
  rewrite write_all_snoc, written_snoc.
  destruct (String.eqb_spec k' k) as [->|Hne].
  - apply lookup_insert_eq.
  - rewrite lookup_insert_ne by exact Hne. exact IH.
Qed.

(** C5, as amended.  A derived patch makes its own assignments first, on the
    entity as it finds it, and invokes the parent's patch last, with the same
    snapshot and on the entity that already carries the derived fields; the
    parent's completion is the completion of the call.  For [Community] the
    snapshot is any value other than [undefined] and [null]; for [Message] it
    is a snapshot that the patch reads without throwing. *)
Theorem derived_patch_assigns_then_delegates
    (super_patch : Value -> M Value) (data : Value) (e : Entity) :
  (nullish data = false ->
   Community_patch super_patch data e =
   super_patch data
     (mkEntity (write_all (Community_writes data) (this e))
               (trace e ++ map Assigned (map fst (Community_writes data))
                        ++ [SuperPatch data]))) /\
  (hydratable data = true ->
   Message_patch super_patch data e =
   super_patch data
     (mkEntity (write_all (Message_writes data) (this e))
               (trace e ++ map Assigned (map fst (Message_writes data))
                        ++ [SuperPatch data]))).
Proof.
  split.
  - apply Community_patch_assigns.
  - apply Message_patch_hydrates.
Qed.

Lemma derived_patch_assigns_then_delegates_witness :
  Community_patch GroupChat_patch Scenario.community_snapshot Scenario.blank =
  GroupChat_patch Scenario.community_snapshot
    (mkEntity (write_all (Community_writes Scenario.community_snapshot) ∅)
              ([] ++ map Assigned
                       (map fst (Community_writes Scenario.community_snapshot))
                  ++ [SuperPatch Scenario.community_snapshot])) /\
  Message_patch Base_patch Scenario.reply_snapshot Scenario.blank =
  Base_patch Scenario.reply_snapshot
    (mkEntity (write_all (Message_writes Scenario.reply_snapshot) ∅)
              ([] ++ map Assigned
                       (map fst (Message_writes Scenario.reply_snapshot))
                  ++ [SuperPatch Scenario.reply_snapshot])).
Proof.
  split.
  - apply (proj1 (derived_patch_assigns_then_delegates
                    GroupChat_patch Scenario.community_snapshot Scenario.blank)).
    reflexivity.
  - apply (proj2 (derived_patch_assigns_then_delegates
                    Base_patch Scenario.reply_snapshot Scenario.blank)).
    reflexivity.
Defined.

(** C5, as stated, fails: patching a community from its snapshot assigns
    [groupMetadata] and [isCommunity] before the parent's patch is invoked. *)
Lemma community_patch_order_counterexample :
  trace (snd (Community_patch GroupChat_patch Scenario.community_snapshot
                              Scenario.blank))
  = [Assigned "groupMetadata"; Assigned "isCommunity";
     SuperPatch Scenario.community_snapshot;
     SuperPatch Scenario.community_snapshot;
     Assigned "id"; Assigned "groupMetadata"] /\
  super_first (trace (snd (Community_patch GroupChat_patch
                             Scenario.community_snapshot Scenario.blank)))
  = false.
Proof. split; reflexivity. Qed.

(** C6, as amended.  A patch assigns every one of its fields on every call:
    after the assignments, and before the parent's patch runs, a field of the
    patch holds the value computed from the snapshot alone, which for a field
    absent from the snapshot is [undefined] or the default of the field,
    whatever the entity held before; the other fields of the entity are as
    they were. *)
Theorem patch_overwrites_its_fields
    (super_patch : Value -> M Value) (data : Value) (e : Entity) :
  (nullish data = false ->
   exists e',
     Community_patch super_patch data e = super_patch data e' /\
     forall k, this e' !! k =
               match written k (Community_writes data) with
               | Some v => Some v
               | None => this e !! k
               end) /\
  (hydratable data = true ->
   exists e',
     Message_patch super_patch data e = super_patch data e' /\
     forall k, this e' !! k =
               match written k (Message_writes data) with
               | Some v => Some v
               | None => this e !! k
               end).
Proof.
  split; intros H; eexists; split.
  - apply Community_patch_assigns. exact H.
  - intros k. apply write_all_lookup.
  - apply Message_patch_hydrates. exact H.
  - intros k. apply write_all_lookup.
Qed.

Lemma patch_overwrites_its_fields_witness :
  (exists e',
     Community_patch GroupChat_patch Scenario.community_snapshot Scenario.blank
       = GroupChat_patch Scenario.community_snapshot e' /\
     forall k, this e' !! k =
               match written k (Community_writes Scenario.community_snapshot) with
               | Some v => Some v
               | None => this Scenario.blank !! k
               end) /\
  (exists e',
     Message_patch Base_patch Scenario.bare_snapshot Scenario.reply
       = Base_patch Scenario.bare_snapshot e' /\
     forall k, this e' !! k =
               match written k (Message_writes Scenario.bare_snapshot) with
               | Some v => Some v
               | None => this Scenario.reply !! k
               end).
Proof.
  split.
  - apply (proj1 (patch_overwrites_its_fields
                    GroupChat_patch Scenario.community_snapshot Scenario.blank)).
    reflexivity.
  - apply (proj2 (patch_overwrites_its_fields
                    Base_patch Scenario.bare_snapshot Scenario.reply)).
    reflexivity.
Defined.

(** C6, as stated, fails: a message hydrated with a type, a body and a
    mention loses all three when it is patched again from a snapshot that
    carries none of them. *)
Lemma repatch_clears_fields_counterexample :
  field Scenario.bare_snapshot "type" = VUndefined /\
  this Scenario.reply !! "type" = Some (VStr "chat") /\
  this Scenario.reply !! "body" = Some (VStr "see you there") /\
  this Scenario.reply !! "mentions" = Some (VArr [VStr "b@c.us"]) /\
  exists e',
    Message_patch Base_patch Scenario.bare_snapshot Scenario.reply
      = (Normal VUndefined, e') /\
    this e' !! "type" = Some VUndefined /\
    this e' !! "body" = Some (VStr "") /\
    this e' !! "mentions" = Some (VArr []).
Proof.
  repeat split; try reflexivity.
  eexists. split; [reflexivity|]. repeat split; reflexivity.
Qed.

Lemma serialized_or_self_null (v : Value) (e : Entity) :
  is_null v = true -> serialized_or_self v e = (Throw TypeError, e).
Proof. destruct v; try discriminate. reflexivity. Qed.

Lemma prop_nullish (v : Value) (k : string) :
  nullish v = true -> prop v k = Throw TypeError.
Proof. destruct v; try discriminate; reflexivity. Qed.

(** C7, as amended.  Patching a message from a snapshot without the
    identifier throws a TypeError, at the latest where [fromMe] is read off
    the identifier.  By then the patch has assigned the fields that come
    first: [id] holds the absent identifier and [hasMedia] the flag of the
    snapshot, whatever they held before.  The fields that come after the
    read, [fromMe], [hasQuotedMsg] and [mentions], are as they were, and the
    parent's patch has not been invoked. *)
Theorem patch_without_identifier
    (super_patch : Value -> M Value) (data : Value) (e : Entity) :
  nullish data = false ->
  nullish (field data "id") = true ->
  exists e' ks,
    Message_patch super_patch data e = (Throw TypeError, e') /\
    trace e' = trace e ++ map Assigned ks /\
    this e' !! "id" = Some (field data "id") /\
    this e' !! "hasMedia" = Some (VBool (JS.truthy (field data "clientUrl"))) /\
    this e' !! "fromMe" = this e !! "fromMe" /\
    this e' !! "hasQuotedMsg" = this e !! "hasQuotedMsg" /\
    this e' !! "mentions" = this e !! "mentions".
Proof.
  intros Hdata Hid.
  unfold Message_patch, bind, get, lift, assign, this_get, ret.
  rewrite !(prop_not_nullish data) by exact Hdata.
  rewrite (prop_nullish _ "fromMe" Hid).
  cbn [this trace]. rewrite lookup_insert_eq. cbn [from_option id JS.truthy].
  assert (Hbody : forall (c : bool) (e0 : Entity),
    (if c
     then fun e1 : Entity =>
            (Normal (js_or (field data "caption") (VStr "")), e1)
     else fun e1 : Entity =>
            (Normal (js_or (field data "body") (VStr "")), e1)) e0
    = (Normal (if c then js_or (field data "caption") (VStr "")
               else js_or (field data "body") (VStr "")), e0))
    by (intros [|] e0; reflexivity).
  rewrite Hbody. cbn [this trace].
  destruct (is_null (field data "from")) eqn:Hfrom.
  { rewrite (serialized_or_self_null _ _ Hfrom).
    eexists. exists ["id"; "hasMedia"; "body"; "type"; "timestamp"].
    split; [reflexivity|]. cbn [this trace map].
    split; [rewrite <- !app_assoc; reflexivity|].
    repeat split; simplify_map_eq; reflexivity. }
  rewrite (serialized_or_self_flat _ _ Hfrom). cbn [this trace].
  destruct (is_null (field data "to")) eqn:Hto.
  { rewrite (serialized_or_self_null _ _ Hto).
    eexists. exists ["id"; "hasMedia"; "body"; "type"; "timestamp"; "from"].
    split; [reflexivity|]. cbn [this trace map].
    split; [rewrite <- !app_assoc; reflexivity|].
    repeat split; simplify_map_eq; reflexivity. }
  rewrite (serialized_or_self_flat _ _ Hto). cbn [this trace].
  destruct (is_null (field data "author")) eqn:Hauthor.
  { rewrite (serialized_or_self_null _ _ Hauthor).
    eexists.
    exists ["id"; "hasMedia"; "body"; "type"; "timestamp"; "from"; "to"].
    split; [reflexivity|]. cbn [this trace map].
    split; [rewrite <- !app_assoc; reflexivity|].
    repeat split; simplify_map_eq; reflexivity. }
  rewrite (serialized_or_self_flat _ _ Hauthor). cbn [this trace].
  eexists.
  exists ["id"; "hasMedia"; "body"; "type"; "timestamp"; "from"; "to";
          "author"; "isForwarded"; "broadcast"].
  split; [reflexivity|]. cbn [this trace map].
  split; [rewrite <- !app_assoc; reflexivity|].
  repeat split; simplify_map_eq; reflexivity.
Qed.

Lemma patch_without_identifier_witness :
  exists e' ks,
    Message_patch Base_patch Scenario.anonymous_snapshot Scenario.reply
      = (Throw TypeError, e') /\
    trace e' = trace Scenario.reply ++ map Assigned ks /\
    this e' !! "id" = Some (field Scenario.anonymous_snapshot "id") /\
    this e' !! "hasMedia"
      = Some (VBool (JS.truthy (field Scenario.anonymous_snapshot "clientUrl"))) /\
    this e' !! "fromMe" = this Scenario.reply !! "fromMe" /\
    this e' !! "hasQuotedMsg" = this Scenario.reply !! "hasQuotedMsg" /\
    this e' !! "mentions" = this Scenario.reply !! "mentions".
Proof.
  apply (patch_without_identifier Base_patch Scenario.anonymous_snapshot
           Scenario.reply).
  - reflexivity.
  - reflexivity.
Defined.

(** C7, as stated, fails: patching a hydrated message from a snapshot without
    the identifier throws a TypeError, not a MalformedSnapshot error, and the
    message comes out of it with its identifier gone and its body replaced. *)
Lemma patch_without_identifier_counterexample :
  field Scenario.anonymous_snapshot "id" = VUndefined /\
  this Scenario.reply !! "id"
    = Some (Scenario.message_id "false_a@c.us_3EB0A1" false) /\
  this Scenario.reply !! "body" = Some (VStr "see you there") /\
  exists e',
    Message_patch Base_patch Scenario.anonymous_snapshot Scenario.reply
      = (Throw TypeError, e') /\
    this e' !! "id" = Some VUndefined /\
    this e' !! "body" = Some (VStr "edited") /\
    this e' <> this Scenario.reply.
Proof.
  repeat split; try reflexivity.
  eexists. split; [reflexivity|]. repeat split; try reflexivity.
  intros E. apply (f_equal (fun m => m !! "body")) in E.
  vm_compute in E. discriminate.
Qed.

(** ** Lazy resolution of the quoted message *)



(** * Further properties of the bulk removal *)

Import Batch.

Section BatchFacts.

Variable P : Platform.

Lemma removal_calls_app evs1 evs2 :
  removal_calls (evs1 ++ evs2) = removal_calls evs1 ++ removal_calls evs2.
Proof.
  induction evs1 as [|[] evs1 IH]; simpl; rewrite ?IH; reflexivity.
Qed.


Lemma delays_app evs1 evs2 : delays (evs1 ++ evs2) = delays evs1 ++ delays evs2.
Proof.
  induction evs1 as [|[] evs1 IH]; simpl; rewrite ?IH; reflexivity.
Qed.

Lemma pauses_delays evs : pauses evs = length (delays evs).
Proof.
  unfold pauses. induction evs as [|[] evs IH]; simpl; rewrite ?IH; reflexivity.
Qed.



End BatchFacts.



Section DataFacts.

Variable P : Platform.




End DataFacts.



Section LoopInvariants.

Variable P : Platform.

(** A property of the loop variables that the statements of the loop body
    keep is kept by the loop. *)
Lemma loop_invariant (Inv : State -> Prop) ids :
  (forall ev st, is_timeout ev = false -> Inv st -> Inv (emit ev st)) ->
  (forall k c m st, Inv st -> Inv (record k c m st)) ->
  (forall i w st, Inv st -> Inv (pause P ids i w st)) ->
  forall wids i st, Inv st -> Inv (state_of (loop P ids i wids st)).
Proof.
  intros Hemit Hrecord Hpause.
  assert (Hclassify : forall k r st, Inv st -> Inv (classify k r st)).
  { intros k [[e|]| | |] st H; simpl; auto. }
  assert (Hiter : forall i w st, Inv st -> Inv (state_of (iteration P ids i w st))).
  { intros i w st H. unfold iteration.
    destruct (QueryExist P i (_serialized w)); simpl; [|auto].
    destruct (communityParticipants P) as [members|]; simpl; [|auto].
    destruct (forallb _ members); simpl; [auto|].
    destruct (sendRemoveParticipantsRPC P i (_serialized w)); simpl; auto 6. }
  induction wids as [|w wids IH]; intros i st H; simpl; [exact H|].
  specialize (Hiter i w st H).
  destruct (iteration P ids i w st) as [st1|st1]; simpl in *; auto.
Qed.

Lemma pause_off ids i w st :
  Pacing.truthy (sleep st) = false -> pause P ids i w st = st.
Proof. intros H. unfold pause. rewrite H. reflexivity. Qed.

End LoopInvariants.

(** X3.  With pacing switched off, by a [sleep] option of zero, no timer is ever
    set, however many targets the batch has. *)
Theorem pacing_off_never_pauses (P : Platform) (ids : Ids) (options : Options) :
  Pacing.truthy (default (Arr [250; 500]) (opt_sleep options)) = false ->
  pauses (snd (removeParticipants P ids options)) = 0%nat.
Proof.
  intros Hoff. unfold removeParticipants.
  destruct (iAmAdmin P); simpl; [|reflexivity].
  match goal with |- context [loop P ?l 0 ?ws ?st0] =>
    pose proof (loop_invariant P
                  (fun st => Pacing.truthy (sleep st) = false /\ delays (log st) = [])
                  l) as Hinv;
    specialize (fun H1 H2 H3 => Hinv H1 H2 H3 ws 0%nat st0) end.
  assert (Hfinal : forall s : Step,
            delays (log (state_of s)) = [] ->
            pauses (match s with
                    | Next st' => (ParticipantData (participantData st'), log st')
                    | Thrown st' => (Exception, log st')
                    end).2 = 0%nat).
  { intros [st'|st'] H; simpl in *; rewrite pauses_delays, H; reflexivity. }
  apply Hfinal. apply Hinv.
  - intros ev st Hev [H1 H2]. split; [exact H1|]. simpl.
    rewrite delays_app, H2. destruct ev; try discriminate; reflexivity.
  - intros k c m st H. exact H.
  - intros i w st [H1 H2]. rewrite pause_off by exact H1. split; assumption.
  - split; [exact Hoff|reflexivity].
Qed.

Lemma pacing_off_never_pauses_witness :
  pauses (snd (removeParticipants Scenario.cooperative
                 (Many ["a@c.us"; "b@c.us"]) Cases.unpaced)) = 0%nat.
Proof.
  apply (pacing_off_never_pauses Scenario.cooperative
           (Many ["a@c.us"; "b@c.us"]) Cases.unpaced).
  reflexivity.
Defined.





Section WithoutSnapshot.

Variable P : Platform.
Hypothesis unloaded : communityParticipants P = None.

(** Without the membership snapshot the loop stops at the first target that
    is on the platform; until then it writes the 404 entries. *)
Lemma loop_without_snapshot ids wids : forall i st,
  let r := loop P ids i wids st in
  removal_calls (log (state_of r)) = removal_calls (log st) /\
  delays (log (state_of r)) = delays (log st) /\
  ((exists j w, wids !! j = Some w /\
                QueryExist P (i + j) (_serialized w) = true) ->
   exists st', r = Thrown st') /\
  ((forall j w, wids !! j = Some w ->
                QueryExist P (i + j) (_serialized w) = false) ->
   exists st', r = Next st' /\
     forall k, (participantData st !! k = Some (mkResult 404 (message_of 404))
                \/ k ∈ map _serialized wids) ->
               participantData st' !! k = Some (mkResult 404 (message_of 404))).
Proof.
  induction wids as [|w wids IH]; intros i st; simpl.
  - repeat split; try reflexivity.
    + intros (j & w & Hj & _). rewrite lookup_nil in Hj. discriminate.
    + intros _. exists st. split; [reflexivity|].
      intros k [H|H]; [exact H|]. apply elem_of_nil in H. destruct H.
  - unfold iteration. rewrite unloaded.
    destruct (QueryExist P i (_serialized w)) eqn:Hq; simpl.
    + rewrite removal_calls_app, delays_app, !app_nil_r.
      repeat split; try reflexivity.
      * intros _. eexists; reflexivity.
      * intros H. specialize (H 0%nat w eq_refl).
        rewrite Nat.add_0_r, Hq in H. discriminate.
    + match goal with |- context [loop P ids (S i) wids ?s] =>
        destruct (IH (S i) s) as (H1 & H2 & H3 & H4) end.
      simpl in H1, H2. rewrite removal_calls_app in H1.
      rewrite delays_app in H2. simpl in H1, H2. rewrite app_nil_r in H1, H2.
      split; [exact H1|]. split; [exact H2|]. split.
      * intros (j & w' & Hj & Hex). apply H3. destruct j as [|j]; simpl in Hj.
        -- injection Hj as <-. rewrite Nat.add_0_r, Hq in Hex. discriminate.
        -- exists j, w'. split; [exact Hj|].
           replace (S i + j)%nat with (i + S j)%nat by lia. exact Hex.
      * intros Hall. destruct H4 as (st' & E & Hd).
        { intros j w' Hj. replace (S i + j)%nat with (i + S j)%nat by lia.
          apply (Hall (S j) w'). exact Hj. }
        exists st'. split; [exact E|]. intros k Hk. apply Hd. simpl.
        destruct (decide (k = _serialized w)) as [->|Hne].
        -- left. apply lookup_insert_eq.
        -- destruct Hk as [Hk|Hk].
           ++ left. rewrite lookup_insert_ne by congruence. exact Hk.
           ++ right. apply elem_of_cons in Hk. destruct Hk; [contradiction|assumption].
Qed.

End WithoutSnapshot.

(** X6.  When the community's metadata is not loaded, so that the membership
    snapshot reads as [undefined], no removal call is ever issued and no pause
    is taken.  If some target is on the platform the call throws, at the
    first such target; if none is, it returns the map of their 404
    entries. *)
Theorem without_snapshot_nothing_is_removed (P : Platform) (ids : Ids)
    (options : Options) :
  iAmAdmin P = true ->
  communityParticipants P = None ->
  let r := removeParticipants P ids options in
  removal_calls (snd r) = [] /\
  pauses (snd r) = 0%nat /\
  ((exists j q, as_array ids !! j = Some q /\
                QueryExist P j (createWid P q) = true) ->
   fst r = Exception) /\
  ((forall j q, as_array ids !! j = Some q ->
                QueryExist P j (createWid P q) = false) ->
   exists data,
     fst r = ParticipantData data /\
     forall q, q ∈ as_array ids ->
       data !! createWid P q = Some (mkResult 404 (message_of 404))).
Proof.
  intros Hadmin Hnone. unfold removeParticipants. rewrite Hadmin. simpl.
  match goal with |- context [loop P ?l 0 ?ws ?st0] =>
    destruct (loop_without_snapshot P Hnone l ws 0%nat st0)
      as (H1 & H2 & H3 & H4);
    destruct (loop P l 0 ws st0) as [st'|st'] eqn:E end;
    simpl in *; rewrite pauses_delays, H1, H2; simpl.
  - repeat split; try reflexivity.
    + intros (j & q & Hj & Hex). destruct H3 as (st'' & Habs); [|discriminate].
      exists j, (mkWid (0 + j) (createWid P q)).
      split; [apply createWids_lookup_Some; exact Hj|exact Hex].
    + intros Hall. destruct H4 as (st'' & E' & Hd).
      { intros j w Hj. destruct (createWids_lookup P _ _ _ _ Hj) as (q & Hq & ->).
        apply (Hall j q Hq). }
      injection E' as <-. exists (participantData st'). split; [reflexivity|].
      intros q Hq. apply Hd. right. rewrite createWids_serialized.
      apply list_elem_of_fmap. exists q. split; [reflexivity|exact Hq].
  - repeat split; try reflexivity.
    intros Hall. destruct H4 as (st'' & E' & _); [|discriminate].
    intros j w Hj. destruct (createWids_lookup P _ _ _ _ Hj) as (q & Hq & ->).
    apply (Hall j q Hq).
Qed.

Lemma without_snapshot_nothing_is_removed_witness :
  let r := removeParticipants Cases.unloaded (Many ["x@c.us"; "a@c.us"])
                              Scenario.defaults in
  removal_calls (snd r) = [] /\
  pauses (snd r) = 0%nat /\
  fst r = Exception.
Proof.
  destruct (without_snapshot_nothing_is_removed Cases.unloaded
              (Many ["x@c.us"; "a@c.us"]) Scenario.defaults eq_refl eq_refl)
    as (H1 & H2 & H3 & _).
  split; [exact H1|]. split; [exact H2|].
  apply H3. exists 1%nat, "a@c.us". split; reflexivity.
Defined.

Lemma single_target_no_pause_witness :
  pauses (snd (removeParticipants Scenario.cooperative (Single "a@c.us")
                                  Scenario.defaults)) = 0%nat.
Proof.
  apply (single_target_no_pause Scenario.cooperative (Single "a@c.us")
           Scenario.defaults "a@c.us").
  reflexivity.
Defined.



(** * Further properties of messages *)

Import Accessors.

Section PatchedFields.

Variable super_patch : Value -> M Value.

(** A field that the parent's patch keeps holds, after [Message._patch],
    the last value that the patch wrote to it. *)
Lemma patched_field (data : Value) (e : Entity) (k : string) (v : Value) :
  hydratable data = true ->
  keeps super_patch k ->
  written k (Message_writes data) = Some v ->
  own (this (snd (Message_patch super_patch data e))) k = v.
Proof.
  intros H Hk Hw. rewrite (Message_patch_hydrates super_patch data e H).
  unfold own. rewrite Hk. cbn [this]. rewrite write_all_lookup, Hw.
  reflexivity.
Qed.

Lemma written_fromMe data :
  written "fromMe" (Message_writes data) = Some (field (field data "id") "fromMe").
Proof.
  unfold Message_writes, written.
  destruct (JS.truthy (field data "mentionedJidList")); reflexivity.
Qed.

Lemma written_to data :
  written "to" (Message_writes data) = Some (flat (field data "to")).
Proof.
  unfold Message_writes, written.
  destruct (JS.truthy (field data "mentionedJidList")); reflexivity.
Qed.

Lemma written_from data :
  written "from" (Message_writes data) = Some (flat (field data "from")).
Proof.
  unfold Message_writes, written.
  destruct (JS.truthy (field data "mentionedJidList")); reflexivity.
Qed.

Lemma written_hasMedia data :
  written "hasMedia" (Message_writes data)
  = Some (VBool (JS.truthy (field data "clientUrl"))).
Proof.
  unfold Message_writes, written.
  destruct (JS.truthy (field data "mentionedJidList")); reflexivity.
Qed.

Lemma written_hasQuotedMsg data :
  written "hasQuotedMsg" (Message_writes data)
  = Some (VBool (JS.truthy (field data "quotedMsg"))).
Proof.
  unfold Message_writes, written.
  destruct (JS.truthy (field data "mentionedJidList")); reflexivity.
Qed.

Lemma written_mentions data :
  written "mentions" (Message_writes data)
  = Some (if JS.truthy (field data "mentionedJidList")
          then field data "mentionedJidList" else VArr []).
Proof.
  unfold Message_writes, written.
  destruct (JS.truthy (field data "mentionedJidList")); reflexivity.
Qed.

End PatchedFields.

Lemma Base_patch_keeps (k : string) : k <> "id" -> keeps Base_patch k.
Proof.
  intros Hk data e. unfold Base_patch.
  destruct (prop data "id") as [[]|]; try reflexivity;
    cbn; rewrite lookup_insert_ne by congruence; reflexivity.
Qed.

(** X8.  The chat of a message hydrated from a snapshot is the recipient when the
    snapshot's identifier says the message is from the current user, and the
    sender otherwise; an address given as an object counts by its serialized
    form. *)
Theorem chat_of_hydrated_message (super_patch : Value -> M Value)
    (data : Value) (e : Entity) :
  hydratable data = true ->
  keeps super_patch "fromMe" -> keeps super_patch "to" -> keeps super_patch "from" ->
  _getChatId (this (snd (Message_patch super_patch data e)))
  = if JS.truthy (field (field data "id") "fromMe")
    then flat (field data "to")
    else flat (field data "from").
Proof.
  intros H Hme Hto Hfrom. unfold _getChatId.
  rewrite (patched_field super_patch data e "fromMe" _ H Hme (written_fromMe data)).
  rewrite (patched_field super_patch data e "to" _ H Hto (written_to data)).
  rewrite (patched_field super_patch data e "from" _ H Hfrom (written_from data)).
  reflexivity.
Qed.

Lemma chat_of_hydrated_message_witness :
  _getChatId (this (snd (Message_patch Base_patch Scenario.reply_snapshot
                                       Scenario.blank)))
  = VStr "a@c.us".
Proof.
  apply (chat_of_hydrated_message Base_patch Scenario.reply_snapshot
           Scenario.blank).
  - reflexivity.
  - apply Base_patch_keeps. discriminate.
  - apply Base_patch_keeps. discriminate.
  - apply Base_patch_keeps. discriminate.
Defined.

Section MentionFacts.

Variable Contact : Type.
Variable getContactById : nat -> Value -> Settled Contact.

Lemma at_index_lookup (ids : list Value) (i : nat) (id : Value) :
  ids !! i = Some id -> at_index (VArr ids) i = id.
Proof. intros H. simpl. rewrite nth_lookup, H. reflexivity. Qed.

(** The loop over an array whose lookups are all answered. *)
Lemma resolve_all (ids : list Value) (contacts : list Contact) :
  length contacts = length ids ->
  (forall i id c, ids !! i = Some id -> contacts !! i = Some c ->
                  getContactById i id = Kept c) ->
  forall n i, (i + n = length ids)%nat ->
    resolve Contact getContactById (VArr ids) i n (take i contacts) (take i ids)
    = (Kept contacts, ids).
Proof.
  intros Hlen Hall. induction n as [|n IH]; intros i Hi.
  - simpl. rewrite !take_ge by lia. reflexivity.
  - destruct (lookup_lt_is_Some_2 ids i ltac:(lia)) as [id Hid].
    destruct (lookup_lt_is_Some_2 contacts i ltac:(lia)) as [c Hc].
    cbn [resolve]. rewrite (at_index_lookup ids i id Hid), (Hall i id c Hid Hc).
    rewrite <- (take_S_r contacts i c Hc), <- (take_S_r ids i id Hid).
    apply IH. lia.
Qed.

(** The loop over an array one of whose lookups is rejected. *)
Lemma resolve_until (ids : list Value) (i : nat) (id : Value) (why : Reason) :
  ids !! i = Some id ->
  getContactById i id = Broken why ->
  (forall j idj, (j < i)%nat -> ids !! j = Some idj ->
                 exists c, getContactById j idj = Kept c) ->
  forall n j found, (j <= i)%nat -> (i < j + n)%nat ->
    resolve Contact getContactById (VArr ids) j n found (take j ids)
    = (Broken why, take (S i) ids).
Proof.
  intros Hid Hrej Hbefore. induction n as [|n IH]; intros j found Hji Hn; [lia|].
  cbn [resolve]. destruct (decide (j = i)) as [->|Hne].
  - rewrite (at_index_lookup ids i id Hid), Hrej.
    rewrite <- (take_S_r ids i id Hid). reflexivity.
  - assert (Hlt : (j < i)%nat) by lia.
    destruct (lookup_lt_is_Some_2 ids j) as [idj Hj].
    { apply lookup_lt_Some in Hid. lia. }
    destruct (Hbefore j idj Hlt Hj) as [c Hc].
    rewrite (at_index_lookup ids j idj Hj), Hc.
    rewrite <- (take_S_r ids j idj Hj). apply IH; lia.
Qed.

End MentionFacts.

(** X9.  [getMentions] on a message whose mentions are an array of identifiers
    that the client all knows: it makes one lookup per mention, in the order
    of the mentions, and settles with the contacts in that same order, as
    many as there are mentions. *)
Theorem getMentions_in_order (Contact : Type)
    (getContactById : nat -> Value -> Settled Contact)
    (fields : gmap string Value) (ids : list Value) (contacts : list Contact) :
  fields !! "mentions" = Some (VArr ids) ->
  length contacts = length ids ->
  (forall i id c, ids !! i = Some id -> contacts !! i = Some c ->
                  getContactById i id = Kept c) ->
  getMentions Contact getContactById fields = Some (Kept contacts, ids).
Proof.
  intros Hm Hlen Hall. unfold getMentions, own. rewrite Hm.
  cbn [from_option Datatypes.id length_of iterations]. rewrite Nat2Z.id.
  f_equal.
  apply (resolve_all Contact getContactById ids contacts Hlen Hall
           (length ids) 0%nat).
  reflexivity.
Qed.

Lemma getMentions_in_order_witness :
  getMentions string Cases.contact_of Cases.two_mentions
  = Some (Kept ["a@c.us"; "b@c.us"], [VStr "a@c.us"; VStr "b@c.us"]).
Proof.
  apply (getMentions_in_order string Cases.contact_of Cases.two_mentions
           [VStr "a@c.us"; VStr "b@c.us"] ["a@c.us"; "b@c.us"]).
  - reflexivity.
  - reflexivity.
  - intros [|[|i]] id c Hid Hc; simpl in *.
    + injection Hid as <-. injection Hc as <-. reflexivity.
    + injection Hid as <-. injection Hc as <-. reflexivity.
    + rewrite lookup_nil in Hid. discriminate.
Defined.

(** X10.  [getMentions] stops at the first lookup that is rejected: it is rejected
    for the same reason, the lookups made are those of the mentions up to
    that one, and none is made for the mentions after it. *)
Theorem getMentions_stops_at_rejection (Contact : Type)
    (getContactById : nat -> Value -> Settled Contact)
    (fields : gmap string Value) (ids : list Value) (i : nat) (id : Value)
    (why : Reason) :
  fields !! "mentions" = Some (VArr ids) ->
  ids !! i = Some id ->
  getContactById i id = Broken why ->
  (forall j idj, (j < i)%nat -> ids !! j = Some idj ->
                 exists c, getContactById j idj = Kept c) ->
  getMentions Contact getContactById fields
  = Some (Broken why, take (S i) ids).
Proof.
  intros Hm Hid Hrej Hbefore. unfold getMentions, own. rewrite Hm.
  cbn [from_option Datatypes.id length_of iterations]. rewrite Nat2Z.id.
  f_equal.
  apply (resolve_until Contact getContactById ids i id why Hid Hrej Hbefore
           (length ids) 0%nat []).
  - lia.
  - apply lookup_lt_Some in Hid. lia.
Qed.

Lemma getMentions_stops_at_rejection_witness :
  getMentions string Cases.contact_of Cases.bad_mention
  = Some (Broken (Upstream (VStr "invalid wid")), [VStr "a@c.us"; VNum 7]).
Proof.
  apply (getMentions_stops_at_rejection string Cases.contact_of
           Cases.bad_mention [VStr "a@c.us"; VNum 7; VStr "b@c.us"]
           1 (VNum 7) (Upstream (VStr "invalid wid"))).
  - reflexivity.
  - reflexivity.
  - reflexivity.
  - intros [|j] idj Hlt Hj; [|lia]. simpl in Hj. injection Hj as <-.
    eexists. reflexivity.
Defined.

(** X11.  A message hydrated from a snapshot without a list of mentions resolves
    to no contacts, without asking the client for any. *)
Theorem getMentions_without_mentions (Contact : Type)
    (getContactById : nat -> Value -> Settled Contact)
    (super_patch : Value -> M Value) (data : Value) (e : Entity) :
  hydratable data = true ->
  keeps super_patch "mentions" ->
  JS.truthy (field data "mentionedJidList") = false ->
  getMentions Contact getContactById
              (this (snd (Message_patch super_patch data e)))
  = Some (Kept [], []).
Proof.
  intros H Hk Hnone. unfold getMentions.
  rewrite (patched_field super_patch data e "mentions" _ H Hk
             (written_mentions data)).
  rewrite Hnone. reflexivity.
Qed.

Lemma getMentions_without_mentions_witness :
  getMentions string Cases.contact_of
              (this (snd (Message_patch Base_patch Scenario.bare_snapshot
                                        Scenario.reply)))
  = Some (Kept [], []).
Proof.
  apply (getMentions_without_mentions string Cases.contact_of Base_patch
           Scenario.bare_snapshot Scenario.reply).
  - reflexivity.
  - apply Base_patch_keeps. discriminate.
  - reflexivity.
Defined.

(** X12.  [reply] quotes the message it is called on: the options that reach
    [sendMessage] carry the serialized identifier of this message as
    [quotedMessageId], whatever the caller put under that key, and the
    caller's other options as they are; the message goes to the chat given,
    and to the chat of this message when none is given. *)
Theorem reply_quotes_this_message (Content Sent : Type)
    (sendMessage : Value -> Content -> gmap string Value -> Settled Sent)
    (fields : gmap string Value) (content : Content) (chatId options : Value)
    (sid : Value) :
  prop (own fields "id") "_serialized" = Normal sid ->
  exists opts,
    reply Content Sent sendMessage fields content chatId options
      = sendMessage (if JS.truthy chatId then chatId else _getChatId fields)
                    content opts /\
    opts !! "quotedMessageId" = Some sid /\
    forall k, k <> "quotedMessageId" -> opts !! k = spread options !! k.
Proof.
  intros Hid. unfold reply. rewrite Hid.
  exists (<["quotedMessageId" := sid]> (spread options)).
  split; [destruct (JS.truthy chatId); reflexivity|].
  split; [apply lookup_insert_eq|].
  intros k Hk. apply lookup_insert_ne. congruence.
Qed.

Lemma reply_quotes_this_message_witness :
  exists opts,
    reply string (Value * string * gmap string Value)
          (fun chat content o => Kept (chat, content, o))
          (this Scenario.reply) "on my way" VUndefined
          (VObj [("quotedMessageId", VStr "another"); ("linkPreview", VBool false)])
      = Kept (VStr "a@c.us", "on my way", opts) /\
    opts !! "quotedMessageId" = Some (VStr "false_a@c.us_3EB0A1") /\
    forall k, k <> "quotedMessageId" ->
      opts !! k
      = spread (VObj [("quotedMessageId", VStr "another");
                      ("linkPreview", VBool false)]) !! k.
Proof.
  apply (reply_quotes_this_message string (Value * string * gmap string Value)
           (fun chat content o => Kept (chat, content, o))
           (this Scenario.reply) "on my way" VUndefined
           (VObj [("quotedMessageId", VStr "another"); ("linkPreview", VBool false)])
           (VStr "false_a@c.us_3EB0A1")).
  reflexivity.
Defined.

Lemma split_comma_free (s : string) :
  comma_free s = true -> split ","%char s = [s].
Proof.
  unfold comma_free. induction s as [|c s IH]; simpl; [reflexivity|].
  intros H. apply andb_prop in H as [Hc Hs].
  apply negb_true_iff in Hc. rewrite Hc, (IH Hs). reflexivity.
Qed.

Lemma split_header (header rest : string) :
  comma_free header = true ->
  split ","%char (String.append header (String ","%char rest))
  = header :: split ","%char rest.
Proof.
  unfold comma_free. induction header as [|c s IH]; simpl; [reflexivity|].
  intros H. apply andb_prop in H as [Hc Hs].
  apply negb_true_iff in Hc. rewrite Hc, (IH Hs). reflexivity.
Qed.

(** X13.  [downloadMedia] on a message with media: one call over the bridge, for
    the serialized identifier of the message; when the page reads the
    decrypted blob as a data URL, a header, a comma and a payload, the media
    returned holds the payload alone, with the MIME type and the file name
    that the page's store has for the message. *)
Theorem downloadMedia_payload (Buffer Decrypted : Type)
    (Msg_get : Value -> Value) (downloadBuffer : Value -> Settled Buffer)
    (decryptE2EMedia : Value -> Buffer -> Value -> Value -> Settled Decrypted)
    (readBlobAsync : Decrypted -> Settled string)
    (fields : gmap string Value) (calls : list Value)
    (msgId : Value) (buffer : Buffer) (decrypted : Decrypted)
    (header payload : string) :
  JS.truthy (own fields "hasMedia") = true ->
  prop (own fields "id") "_serialized" = Normal msgId ->
  nullish (Msg_get msgId) = false ->
  downloadBuffer (field (Msg_get msgId) "clientUrl") = Kept buffer ->
  decryptE2EMedia (field (Msg_get msgId) "type") buffer
                  (field (Msg_get msgId) "mediaKey")
                  (field (Msg_get msgId) "mimetype") = Kept decrypted ->
  readBlobAsync decrypted
    = Kept (String.append header (String ","%char payload)) ->
  comma_free header = true ->
  comma_free payload = true ->
  downloadMedia Buffer Decrypted Msg_get downloadBuffer decryptE2EMedia
                readBlobAsync fields calls
  = (Kept (Some (mkMedia (field (Msg_get msgId) "mimetype") (VStr payload)
                         (field (Msg_get msgId) "filename"))),
     calls ++ [msgId]).
Proof.
  intros Hmedia Hid Hmsg Hbuf Hdec Hread Hh Hp.
  unfold downloadMedia, in_page. rewrite Hmedia, Hid. cbn [negb].
  rewrite (prop_not_nullish _ "clientUrl" Hmsg), Hbuf, Hdec, Hread.
  rewrite (split_header header payload Hh), (split_comma_free payload Hp).
  reflexivity.
Qed.

Lemma downloadMedia_payload_witness :
  downloadMedia string string Cases.stored Cases.fetch Cases.decrypt Cases.read
                Cases.picture []
  = (Kept (Some (mkMedia (VStr "image/png") (VStr "iVBORw0KGgo=")
                         (VStr "view.png"))),
     [VStr "false_a@c.us_3EB0B2"]).
Proof.
  apply (downloadMedia_payload string string Cases.stored Cases.fetch
           Cases.decrypt Cases.read Cases.picture []
           (VStr "false_a@c.us_3EB0B2") "encrypted" "decrypted"
           "data:image/png;base64" "iVBORw0KGgo=");
    reflexivity.
Defined.

(** X14.  A message hydrated from a snapshot without a media locator has nothing
    to download: [downloadMedia] settles with [undefined] and makes no call
    over the bridge. *)
Theorem downloadMedia_without_media (Buffer Decrypted : Type)
    (Msg_get : Value -> Value) (downloadBuffer : Value -> Settled Buffer)
    (decryptE2EMedia : Value -> Buffer -> Value -> Value -> Settled Decrypted)
    (readBlobAsync : Decrypted -> Settled string)
    (super_patch : Value -> M Value) (data : Value) (e : Entity)
    (calls : list Value) :
  hydratable data = true ->
  keeps super_patch "hasMedia" ->
  JS.truthy (field data "clientUrl") = false ->
  downloadMedia Buffer Decrypted Msg_get downloadBuffer decryptE2EMedia
                readBlobAsync (this (snd (Message_patch super_patch data e)))
                calls
  = (Kept None, calls).
Proof.
  intros H Hk Hnone. unfold downloadMedia.
  rewrite (patched_field super_patch data e "hasMedia" _ H Hk
             (written_hasMedia data)).
  rewrite Hnone. reflexivity.
Qed.

Lemma downloadMedia_without_media_witness :
  downloadMedia string string Cases.stored Cases.fetch Cases.decrypt Cases.read
                (this (snd (Message_patch Base_patch Scenario.reply_snapshot
                                          Scenario.blank))) []
  = (Kept None, []).
Proof.
  apply (downloadMedia_without_media string string Cases.stored Cases.fetch
           Cases.decrypt Cases.read Base_patch Scenario.reply_snapshot
           Scenario.blank []).
  - reflexivity.
  - apply Base_patch_keeps. discriminate.
  - reflexivity.
Defined.

(** X15.  A message hydrated from a snapshot without a quoted message has no quote
    to resolve: [getQuotedMessage] returns [undefined] and makes no call over
    the bridge. *)
Theorem getQuotedMessage_without_quote
    (super_patch : Value -> M Value) (evaluate : Value -> Completion Value)
    (data : Value) (e : Entity) (self : ref) (w : World) :
  hydratable data = true ->
  keeps super_patch "hasQuotedMsg" ->
  JS.truthy (field data "quotedMsg") = false ->
  heap w !! self = Some (this (snd (Message_patch super_patch data e))) ->
  getQuotedMessage super_patch evaluate self w = (Normal None, w).
Proof.
  intros H Hk Hnone Hself. unfold getQuotedMessage. rewrite Hself.
  cbn [from_option Datatypes.id].
  pose proof (patched_field super_patch data e "hasQuotedMsg" _ H Hk
                (written_hasQuotedMsg data)) as Hq.
  unfold own in Hq. rewrite Hq, Hnone. reflexivity.
Qed.

Lemma getQuotedMessage_without_quote_witness :
  getQuotedMessage Base_patch Scenario.bridge 1%nat Scenario.store
  = (Normal None, Scenario.store).
Proof.
  apply (getQuotedMessage_without_quote Base_patch Scenario.bridge
           Scenario.quoted_snapshot Scenario.blank 1%nat Scenario.store).
  - reflexivity.
  - apply Base_patch_keeps. discriminate.
  - reflexivity.
  - reflexivity.
Defined.

(** X16.  A snapshot in which the sender, the recipient or the author is [null]
    makes [Message._patch] throw a TypeError, identifier or not: [null]
    passes the test for an object and has no serialized form to read.  The
    fields before that address are already overwritten by then, [id] among
    them; [author] and the fields after it are as they were, and the
    parent's patch is not invoked. *)
Theorem patch_with_null_address
    (super_patch : Value -> M Value) (data : Value) (e : Entity) :
  nullish data = false ->
  is_null (field data "from") || is_null (field data "to")
    || is_null (field data "author") = true ->
  exists e' ks,
    Message_patch super_patch data e = (Throw TypeError, e') /\
    trace e' = trace e ++ map Assigned ks /\
    this e' !! "id" = Some (field data "id") /\
    this e' !! "author" = this e !! "author" /\
    this e' !! "fromMe" = this e !! "fromMe" /\
    this e' !! "hasQuotedMsg" = this e !! "hasQuotedMsg" /\
    this e' !! "mentions" = this e !! "mentions".
Proof.
  intros Hdata Hnull.
  unfold Message_patch, bind, get, lift, assign, this_get, ret.
  rewrite !(prop_not_nullish data) by exact Hdata.
  cbn [this trace]. rewrite lookup_insert_eq.
  cbn [from_option Datatypes.id JS.truthy].
  assert (Hbody : forall (c : bool) (e0 : Entity),
    (if c
     then fun e1 : Entity =>
            (Normal (js_or (field data "caption") (VStr "")), e1)
     else fun e1 : Entity =>
            (Normal (js_or (field data "body") (VStr "")), e1)) e0
    = (Normal (if c then js_or (field data "caption") (VStr "")
               else js_or (field data "body") (VStr "")), e0))
    by (intros [|] e0; reflexivity).
  rewrite Hbody. cbn [this trace].
  destruct (is_null (field data "from")) eqn:Hfrom.
  { rewrite (serialized_or_self_null _ _ Hfrom).
    eexists. exists ["id"; "hasMedia"; "body"; "type"; "timestamp"].
    split; [reflexivity|]. cbn [this trace map].
    split; [rewrite <- !app_assoc; reflexivity|].
    repeat split; simplify_map_eq; reflexivity. }
  rewrite (serialized_or_self_flat _ _ Hfrom). cbn [this trace].
  destruct (is_null (field data "to")) eqn:Hto.
  { rewrite (serialized_or_self_null _ _ Hto).
    eexists. exists ["id"; "hasMedia"; "body"; "type"; "timestamp"; "from"].
    split; [reflexivity|]. cbn [this trace map].
    split; [rewrite <- !app_assoc; reflexivity|].
    repeat split; simplify_map_eq; reflexivity. }
  rewrite (serialized_or_self_flat _ _ Hto). cbn [this trace].
  simpl in Hnull.
  rewrite (serialized_or_self_null _ _ Hnull).
  eexists.
  exists ["id"; "hasMedia"; "body"; "type"; "timestamp"; "from"; "to"].
  split; [reflexivity|]. cbn [this trace map].
  split; [rewrite <- !app_assoc; reflexivity|].
  repeat split; simplify_map_eq; reflexivity.
Qed.

Lemma patch_with_null_address_witness :
  exists e' ks,
    Message_patch Base_patch Cases.null_sender Scenario.reply
      = (Throw TypeError, e') /\
    trace e' = trace Scenario.reply ++ map Assigned ks /\
    this e' !! "id" = Some (field Cases.null_sender "id") /\
    this e' !! "author" = this Scenario.reply !! "author" /\
    this e' !! "fromMe" = this Scenario.reply !! "fromMe" /\
    this e' !! "hasQuotedMsg" = this Scenario.reply !! "hasQuotedMsg" /\
    this e' !! "mentions" = this Scenario.reply !! "mentions".
Proof.
  apply (patch_with_null_address Base_patch Cases.null_sender Scenario.reply).
  - reflexivity.
  - reflexivity.
Defined.


